(** * Snake: the game state machine of [snake_game.py]

    A shallow embedding of the game logic of [snake_game.py]: the geometry
    helpers [add] and [inside], the board sampler [random_empty_cell], the
    closures [reset_game] and [current_fps] of [run], and the body of the
    main loop of [run] split into its three phases (event handling, the
    movement step, drawing of the cells).  [frame] puts the three phases
    together into one pass of the loop and [run_frames] repeats it; the text
    of the HUD is left out, the place of the game-over overlay is
    [overlay_pos].

    Python integers are unbounded, hence [Z].  A [set[Vec]] is a [gset] of
    pairs, the snake is a list with the head first.  [random.choice] is the
    only source of non-determinism: the functions that call it take the
    drawn number as an extra argument [r]. *)

From Stdlib Require Import ZArith List Lia.
From stdpp Require Import base decidable option numbers list gmap fin_sets.

Local Open Scope Z_scope.

(** ** Data *)

(** [Vec = tuple[int, int]] *)
Definition Vec : Type := Z * Z.

(** An RGB triple. *)
Definition Color : Type := Z * Z * Z.

(** [class Config]; the colours are kept because the drawing code reads
    them. *)
Record Config := mkConfig {
  cell_size : Z;
  grid_width : Z;
  grid_height : Z;
  bg_color : Color;
  snake_color : Color;
  head_color : Color;
  food_color : Color;
  text_color : Color;
  base_fps : Z;
  speedup_every : Z;
  speedup_amount : Z
}.

(** [Config()], the configuration that [run] builds: every field at its
    default. *)
Definition Config0 : Config := {|
  cell_size := 20;
  grid_width := 30;
  grid_height := 20;
  bg_color := (18, 18, 18);
  snake_color := (80, 220, 120);
  head_color := (50, 190, 95);
  food_color := (220, 80, 80);
  text_color := (235, 235, 235);
  base_fps := 5;
  speedup_every := 5;
  speedup_amount := 2
|}.

Definition width_px (cfg : Config) : Z := grid_width cfg * cell_size cfg.
Definition height_px (cfg : Config) : Z := grid_height cfg * cell_size cfg.

(** The six local variables of [run] that make up the game state. *)
Record State := mkState {
  snake : list Vec;
  direction : Vec;
  pending_dir : Vec;
  alive : bool;
  score : Z;
  food : Vec
}.

(** ** Geometry *)

Definition add (a b : Vec) : Vec := (a.1 + b.1, a.2 + b.2).

Definition inside (pos : Vec) (cfg : Config) : bool :=
  (0 <=? pos.1) && (pos.1 <? grid_width cfg) &&
  ((0 <=? pos.2) && (pos.2 <? grid_height cfg)).

(** ** Board sampler *)

(** Python's [range(n)]: [0, 1, ..., n-1], empty when [n <= 0]. *)
Definition range (n : Z) : list Z := seqZ 0 n.

(** The value returned when the snake fills the board. *)
Definition board_full : Vec := (-1, -1).

(** The list comprehension of [random_empty_cell]: [y] is the outer loop,
    [x] the inner one, the filter is the test [(x, y) not in occupied]. *)
Definition empties (occupied : gset Vec) (cfg : Config) : list Vec :=
  y ← range (grid_height cfg);
  x ← range (grid_width cfg);
  if decide ((x, y) ∈ occupied) then [] else [(x, y)].

(** [random.choice(seq)] returns [seq[i]] for a drawn index [i] below
    [len(seq)]; [r] is the draw, reduced into that interval.  On an empty
    sequence it raises, which is [None] here. *)
Definition choice {A} (r : nat) (l : list A) : option A :=
  match l with
  | [] => None
  | _ => l !! (r `mod` length l)%nat
  end.

Definition random_empty_cell (r : nat) (occupied : gset Vec) (cfg : Config) : Vec :=
  let es := empties occupied cfg in
  match es with
  | [] => board_full
  | _ => default board_full (choice r es)
  end.

(** ** The closures of [run] *)

Definition reset_game (cfg : Config) (r : nat) : State :=
  let start := (grid_width cfg `div` 2, grid_height cfg `div` 2) in
  let snake0 := [start; (start.1 - 1, start.2); (start.1 - 2, start.2)] in
  let direction0 := (1, 0) in
  {| snake := snake0;
     direction := direction0;
     pending_dir := direction0;
     alive := true;
     score := 0;
     food := random_empty_cell r (list_to_set snake0) cfg |}.

(** [score_value // cfg.speedup_every] raises [ZeroDivisionError] when the
    divisor is 0; otherwise [//] is floor division, which is [Z.div]. *)
Definition current_fps (cfg : Config) (score_value : Z) : option Z :=
  if decide (speedup_every cfg = 0) then None
  else Some (base_fps cfg + (score_value `div` speedup_every cfg) * speedup_amount cfg).

(** ** The loop body of [run]: events *)

(** The key codes the loop looks at; every other key is [K_other]. *)
Inductive Key :=
  | K_UP | K_w | K_DOWN | K_s | K_LEFT | K_a | K_RIGHT | K_d
  | K_r | K_ESCAPE | K_other.

#[global] Instance Key_eq_dec : EqDecision Key.
Proof. solve_decision. Defined.

Inductive Event :=
  | QUIT
  | KEYDOWN (key : Key)
  | OTHER_EVENT.

Definition with_pending (s : State) (d : Vec) : State :=
  {| snake := snake s; direction := direction s; pending_dir := d;
     alive := alive s; score := score s; food := food s |}.

(** The block under [if alive:] in the event loop
    ("Direction input (prevent direct reversal)"). *)
Definition direction_input (s : State) (key : Key) : State :=
  if alive s then
    match key with
    | K_UP | K_w =>
        if decide (direction s ≠ (0, 1)) then with_pending s (0, -1) else s
    | K_DOWN | K_s =>
        if decide (direction s ≠ (0, -1)) then with_pending s (0, 1) else s
    | K_LEFT | K_a =>
        if decide (direction s ≠ (1, 0)) then with_pending s (-1, 0) else s
    | K_RIGHT | K_d =>
        if decide (direction s ≠ (-1, 0)) then with_pending s (1, 0) else s
    | _ => s
    end
  else s.

(** What one event does: leave the program, or go on with a state. *)
Inductive Outcome :=
  | Quit
  | Continue (s : State).

(** One iteration of [for event in pygame.event.get()]; [r] is the draw
    that [reset_game] would use. *)
Definition handle_event (cfg : Config) (r : nat) (s : State) (event : Event) : Outcome :=
  match event with
  | QUIT => Quit
  | KEYDOWN key =>
      if bool_decide (key = K_ESCAPE) then Quit
      else if negb (alive s) && bool_decide (key = K_r)
      then Continue (reset_game cfg r)
      else Continue (direction_input s key)
  | OTHER_EVENT => Continue s
  end.

(** ** The loop body of [run]: the movement step *)

(** [snake.pop()]: drop the last element. *)
Definition pop (l : list Vec) : list Vec := removelast l.

(** The block under the second [if alive:].  [snake[0]] raises on an empty
    list, which is [None]; [r] is the draw for the new food. *)
Definition tick (cfg : Config) (r : nat) (s : State) : option State :=
  if alive s then
    let direction1 := pending_dir s in
    match snake s with
    | [] => None
    | head :: _ =>
        let new_head := add head direction1 in
        if negb (inside new_head cfg) || bool_decide (new_head ∈ snake s) then
          Some {| snake := snake s; direction := direction1;
                  pending_dir := pending_dir s; alive := false;
                  score := score s; food := food s |}
        else
          let snake1 := new_head :: snake s in
          if decide (new_head = food s) then
            Some {| snake := snake1; direction := direction1;
                    pending_dir := pending_dir s; alive := true;
                    score := score s + 1;
                    food := random_empty_cell r (list_to_set snake1) cfg |}
          else
            Some {| snake := pop snake1; direction := direction1;
                    pending_dir := pending_dir s; alive := true;
                    score := score s; food := food s |}
    end
  else Some s.

(** ** The loop body of [run]: drawing the cells *)

(** [pygame.Rect(left, top, width, height)] *)
Record Rect := mkRect { rect_left : Z; rect_top : Z; rect_width : Z; rect_height : Z }.

(** A call of [pygame.draw.rect] on the screen. *)
Definition DrawOp : Type := Color * Rect.

Definition draw_cell (pos : Vec) (color : Color) (cfg : Config) : DrawOp :=
  (color,
   {| rect_left := pos.1 * cell_size cfg; rect_top := pos.2 * cell_size cfg;
      rect_width := cell_size cfg; rect_height := cell_size cfg |}).

(** "Draw food" *)
Definition draw_food (cfg : Config) (s : State) : list DrawOp :=
  if decide (food s ≠ board_full) then [draw_cell (food s) (food_color cfg) cfg]
  else [].

(** "Draw snake" *)
Definition draw_snake (cfg : Config) (s : State) : list DrawOp :=
  match snake s with
  | [] => []
  | head :: body =>
      draw_cell head (head_color cfg) cfg
      :: map (λ seg, draw_cell seg (snake_color cfg) cfg) body
  end.

(** The rectangles of one frame, in drawing order. *)
Definition draw_cells (cfg : Config) (s : State) : list DrawOp :=
  draw_food cfg s ++ draw_snake cfg s.

(** ** Runs *)

(** What the loop does to the state between two resets: a movement step
    with its draw, or a key press while the game goes on. *)
Inductive Input :=
  | Tick (r : nat)
  | Press (key : Key).

Definition step (cfg : Config) (s : State) (i : Input) : option State :=
  match i with
  | Tick r => tick cfg r s
  | Press key => Some (direction_input s key)
  end.

Fixpoint run_inputs (cfg : Config) (s : State) (inputs : list Input) : option State :=
  match inputs with
  | [] => Some s
  | i :: rest =>
      match step cfg s i with
      | None => None
      | Some s' => run_inputs cfg s' rest
      end
  end.

(** The cell the head moves to at the next movement step. *)
Definition next_head (s : State) : option Vec :=
  match snake s with
  | [] => None
  | head :: _ => Some (add head (pending_dir s))
  end.

(** The next movement step ends the game: the new head leaves the grid or
    runs into the snake. *)
Definition collides (cfg : Config) (s : State) (new_head : Vec) : bool :=
  negb (inside new_head cfg) || bool_decide (new_head ∈ snake s).

(** The next movement step consumes the item. *)
Definition eats (cfg : Config) (s : State) : bool :=
  alive s &&
  match next_head s with
  | None => false
  | Some new_head => negb (collides cfg s new_head) && bool_decide (new_head = food s)
  end.

(** Number of items consumed along a run. *)
Fixpoint eaten (cfg : Config) (s : State) (inputs : list Input) : nat :=
  match inputs with
  | [] => 0
  | i :: rest =>
      match step cfg s i with
      | None => 0
      | Some s' =>
          ((match i with Tick _ => if eats cfg s then 1 else 0 | Press _ => 0 end)
           + eaten cfg s' rest)%nat
      end
  end.

(** States the game can be in after a reset. *)
Definition reachable (cfg : Config) (s : State) : Prop :=
  ∃ r0 inputs, run_inputs cfg (reset_game cfg r0) inputs = Some s.

(** ** Directions, as the key handling understands them *)

Inductive Dir := Up | Down | Left | Right.

Definition dir_vec (d : Dir) : Vec :=
  match d with
  | Up => (0, -1)
  | Down => (0, 1)
  | Left => (-1, 0)
  | Right => (1, 0)
  end.

(** The direction a key asks for. *)
Definition key_dir (key : Key) : option Dir :=
  match key with
  | K_UP | K_w => Some Up
  | K_DOWN | K_s => Some Down
  | K_LEFT | K_a => Some Left
  | K_RIGHT | K_d => Some Right
  | _ => None
  end.

Definition neg (v : Vec) : Vec := (- v.1, - v.2).

(** The direction a key press asks for, when the reversal test lets it
    through. *)
Definition accepted (s : State) (key : Key) : option Vec :=
  match key_dir key with
  | Some d => if decide (dir_vec d = neg (direction s)) then None else Some (dir_vec d)
  | None => None
  end.

(** The last accepted request of a series of key presses. *)
Definition last_accepted (s : State) (keys : list Key) : option Vec :=
  last (omap (accepted s) keys).

Definition press_all (s : State) (keys : list Key) : State :=
  foldl direction_input s keys.

(** The snake is duplicate-free and lies on the board. *)
Definition chain_ok (cfg : Config) (s : State) : Prop :=
  NoDup (snake s) ∧ Forall (λ c, inside c cfg = true) (snake s).

(** ** Small boards for the examples *)

(** A 5 x 5 board, otherwise the default configuration. *)
Definition cfg_5x5 : Config :=
  {| cell_size := 20; grid_width := 5; grid_height := 5;
     bg_color := bg_color Config0; snake_color := snake_color Config0;
     head_color := head_color Config0; food_color := food_color Config0;
     text_color := text_color Config0; base_fps := 5; speedup_every := 5;
     speedup_amount := 2 |}.

(** A 2 x 2 board, otherwise the default configuration. *)
Definition cfg_2x2 : Config :=
  {| cell_size := 20; grid_width := 2; grid_height := 2;
     bg_color := bg_color Config0; snake_color := snake_color Config0;
     head_color := head_color Config0; food_color := food_color Config0;
     text_color := text_color Config0; base_fps := 5; speedup_every := 5;
     speedup_amount := 2 |}.

(** A 2 x 1 board, otherwise the default configuration. *)
Definition cfg_2x1 : Config :=
  {| cell_size := 20; grid_width := 2; grid_height := 1;
     bg_color := bg_color Config0; snake_color := snake_color Config0;
     head_color := head_color Config0; food_color := food_color Config0;
     text_color := text_color Config0; base_fps := 5; speedup_every := 5;
     speedup_amount := 2 |}.

(** ** The loop body of [run]: one pass *)

(** [for event in pygame.event.get()]: the events of one pass, in order,
    each with the draw a restart at that event would use.  [return] leaves
    the loop, and the program, at once. *)
Fixpoint handle_events (cfg : Config) (s : State) (events : list (Event * nat)) : Outcome :=
  match events with
  | [] => Continue s
  | (event, r) :: rest =>
      match handle_event cfg r s event with
      | Quit => Quit
      | Continue s' => handle_events cfg s' rest
      end
  end.

(** What one pass of [while True] gives: the program ends, or the pass is
    completed with a new state, the cells drawn and the rate handed to
    [clock.tick]. *)
Inductive FrameOutcome :=
  | FrameQuit
  | FrameDone (s : State) (cells : list DrawOp) (fps : Z).

(** One pass of [while True]: the events, the movement step with draw [r],
    the cells, and [current_fps(score)] for the HUD and the clock.  [None]
    is an exception that ends the program. *)
Definition frame (cfg : Config) (events : list (Event * nat)) (r : nat) (s : State)
    : option FrameOutcome :=
  match handle_events cfg s events with
  | Quit => Some FrameQuit
  | Continue s1 =>
      match tick cfg r s1 with
      | None => None
      | Some s2 =>
          match current_fps cfg (score s2) with
          | None => None
          | Some fps => Some (FrameDone s2 (draw_cells cfg s2) fps)
          end
      end
  end.

(** The first passes of the loop, one per element of [frames]. *)
Fixpoint run_frames (cfg : Config) (s : State) (frames : list (list (Event * nat) * nat))
    : option Outcome :=
  match frames with
  | [] => Some (Continue s)
  | (events, r) :: rest =>
      match frame cfg events r s with
      | None => None
      | Some FrameQuit => Some Quit
      | Some (FrameDone s' _ _) => run_frames cfg s' rest
      end
  end.

(** The top-left corners of the two lines of the game-over overlay.  The
    sizes of the rendered images ([img1.get_width()], [img1.get_height()],
    [img2.get_width()]) come from the font. *)
Definition overlay_pos (cfg : Config) (w1 h1 w2 : Z) : (Z * Z) * (Z * Z) :=
  let x1 := (width_px cfg - w1) `div` 2 in
  let y1 := (height_px cfg - h1) `div` 2 - 18 in
  let x2 := (width_px cfg - w2) `div` 2 in
  let y2 := y1 + h1 + 10 in
  ((x1, y1), (x2, y2)).

(** ** Vocabulary for the properties of the loop *)

(** One of the four steps of the grid. *)
Definition unit_vec (v : Vec) : Prop := ∃ d, v = dir_vec d.

(** Each cell of the list is one grid step away from the next. *)
Fixpoint contiguous (l : list Vec) : Prop :=
  match l with
  | a :: (b :: _) as rest => (∃ d, a = add b (dir_vec d)) ∧ contiguous rest
  | _ => True
  end.

(** Directions are grid steps and the pending one does not reverse the
    committed one. *)
Definition steering_ok (s : State) : Prop :=
  unit_vec (direction s) ∧ unit_vec (pending_dir s) ∧
  pending_dir s ≠ neg (direction s).

(** While the game is on, the head is one committed step ahead of the cell
    behind it. *)
Definition neck_ok (s : State) : Prop :=
  alive s = true →
  ∀ head neck rest, snake s = head :: neck :: rest → head = add neck (direction s).

(** The item is the board-full value or a free cell of the board. *)
Definition food_ok (cfg : Config) (s : State) : Prop :=
  food s = board_full ∨ (inside (food s) cfg = true ∧ food s ∉ snake s).

(** What every pass of the loop keeps, on any grid. *)
Definition game_inv (cfg : Config) (s : State) : Prop :=
  (3 ≤ length (snake s))%nat ∧
  score s = Z.of_nat (length (snake s)) - 3 ∧
  steering_ok s ∧ neck_ok s ∧ contiguous (snake s) ∧ food_ok cfg s.



(** The board-full value is only there when the snake covers the board. *)
Definition win_ok (cfg : Config) (s : State) : Prop :=
  food s = board_full → ∀ c, inside c cfg = true → c ∈ snake s.

(** A 4 x 1 board, otherwise the default configuration. *)
Definition cfg_4x1 : Config :=
  {| cell_size := 20; grid_width := 4; grid_height := 1;
     bg_color := bg_color Config0; snake_color := snake_color Config0;
     head_color := head_color Config0; food_color := food_color Config0;
     text_color := text_color Config0; base_fps := 5; speedup_every := 5;
     speedup_amount := 2 |}.

(** * Properties *)

(** ** Geometry and the sampler *)

Section sampler.
Implicit Types (occupied : gset Vec) (cfg : Config) (c : Vec) (r : nat).

Lemma inside_spec c cfg :
  inside c cfg = true ↔
  0 ≤ c.1 < grid_width cfg ∧ 0 ≤ c.2 < grid_height cfg.
Proof.
  unfold inside. rewrite !andb_true_iff, !Z.leb_le, !Z.ltb_lt. lia.
Qed.

Lemma board_full_outside cfg : inside board_full cfg = false.
Proof. reflexivity. Qed.

Lemma elem_of_empties occupied cfg c :
  c ∈ empties occupied cfg ↔ inside c cfg = true ∧ c ∉ occupied.
Proof.
  unfold empties, range. rewrite inside_spec, list_elem_of_bind.
  destruct c as [cx cy]; simpl. split.
  - intros (y & (x & Hc & Hx)%list_elem_of_bind & Hy).
    apply elem_of_seqZ in Hx, Hy.
    destruct (decide ((x, y) ∈ occupied)) as [|Hn]; [by apply elem_of_nil in Hc|].
    apply list_elem_of_singleton in Hc. injection Hc as -> ->.
    split; [lia | done].
  - intros [[Hx Hy] Hn]. exists cy. split; [|apply elem_of_seqZ; lia].
    apply list_elem_of_bind. exists cx. split; [|apply elem_of_seqZ; lia].
    rewrite decide_False by done. apply list_elem_of_singleton. done.
Qed.

Lemma NoDup_empties occupied cfg : NoDup (empties occupied cfg).
Proof.
  unfold empties, range. apply NoDup_bind; [| |apply NoDup_seqZ].
  - intros y1 y2 c _ _ (x1 & H1 & _)%list_elem_of_bind (x2 & H2 & _)%list_elem_of_bind.
    repeat case_decide; try by apply elem_of_nil in H1.
    all: try by apply elem_of_nil in H2.
    apply list_elem_of_singleton in H1, H2. congruence.
  - intros y _. apply NoDup_bind; [| |apply NoDup_seqZ].
    + intros x1 x2 c _ _ H1 H2.
      repeat case_decide; try by apply elem_of_nil in H1.
      all: try by apply elem_of_nil in H2.
      apply list_elem_of_singleton in H1, H2. congruence.
    + intros x _. case_decide; [constructor | apply NoDup_singleton].
Qed.

Lemma length_bind_const {A B} (f : A → list B) (l : list A) n :
  (∀ x, length (f x) = n) → length (l ≫= f) = (length l * n)%nat.
Proof.
  intros Hf. induction l as [|x l IH]; csimpl; [done|].
  rewrite length_app, Hf, IH. done.
Qed.

(** The grid has [grid_height * grid_width] cells. *)
Lemma length_empties_empty cfg :
  length (empties ∅ cfg)
  = (Z.to_nat (grid_height cfg) * Z.to_nat (grid_width cfg))%nat.
Proof.
  unfold empties, range.
  rewrite (length_bind_const _ _ (Z.to_nat (grid_width cfg))).
  - by rewrite length_seqZ.
  - intros y. rewrite (length_bind_const _ _ 1%nat).
    + rewrite length_seqZ. lia.
    + intros x. rewrite decide_False by set_solver. done.
Qed.

Lemma choice_is_Some {A} r (l : list A) : l ≠ [] → is_Some (choice r l).
Proof.
  intros Hl. destruct l as [|a l]; [done|]. unfold choice.
  apply lookup_lt_is_Some. apply Nat.mod_upper_bound. done.
Qed.

Lemma choice_elem_of {A} r (l : list A) x : choice r l = Some x → x ∈ l.
Proof.
  destruct l as [|a l]; [done|]. unfold choice. apply list_elem_of_lookup_2.
Qed.

(** Every element can be drawn. *)
Lemma choice_any {A} (l : list A) x : x ∈ l → ∃ r, choice r l = Some x.
Proof.
  intros [i Hi]%list_elem_of_lookup_1. exists i.
  pose proof (lookup_lt_Some _ _ _ Hi) as Hlt.
  destruct l as [|a l]; [done|]. unfold choice.
  by rewrite Nat.mod_small.
Qed.

(** The two ways out of [random_empty_cell]. *)
Lemma random_empty_cell_cases r occupied cfg :
  (empties occupied cfg = [] ∧ random_empty_cell r occupied cfg = board_full)
  ∨ random_empty_cell r occupied cfg ∈ empties occupied cfg.
Proof.
  unfold random_empty_cell.
  destruct (empties occupied cfg) as [|c es] eqn:E; [by left|right].
  destruct (choice_is_Some r (c :: es)) as [x Hx]; [done|].
  rewrite Hx. simpl. by apply choice_elem_of in Hx.
Qed.

Lemma random_empty_cell_full r occupied cfg :
  random_empty_cell r occupied cfg = board_full ↔ empties occupied cfg = [].
Proof.
  split.
  - intros Hr. destruct (random_empty_cell_cases r occupied cfg) as [[? _]|Hin]; [done|].
    rewrite Hr in Hin. apply elem_of_empties in Hin as [Hin _].
    by rewrite board_full_outside in Hin.
  - intros He. unfold random_empty_cell. by rewrite He.
Qed.

Lemma empties_nil occupied cfg :
  empties occupied cfg = [] ↔ ∀ c, inside c cfg = true → c ∈ occupied.
Proof.
  split.
  - intros He c Hc. destruct (decide (c ∈ occupied)) as [|Hn]; [done|].
    assert (c ∈ empties occupied cfg) as Hin by by apply elem_of_empties.
    rewrite He in Hin. by apply elem_of_nil in Hin.
  - intros Hall. apply elem_of_nil_inv. intros c [Hc Hn]%elem_of_empties.
    by apply Hn, Hall.
Qed.

End sampler.

(** ** The movement step *)

Section movement.
Implicit Types (cfg : Config) (s : State) (r : nat) (l : list Vec).

Lemma snoc_inv l : l ≠ [] → ∃ body tail, l = body ++ [tail].
Proof.
  intros [c Hc]%last_is_Some. apply last_Some in Hc as [body ->]. eauto.
Qed.

Lemma collides_false cfg s c :
  collides cfg s c = false ↔ inside c cfg = true ∧ c ∉ snake s.
Proof.
  unfold collides. rewrite orb_false_iff, negb_false_iff, bool_decide_eq_false.
  done.
Qed.

Lemma collides_true cfg s c :
  collides cfg s c = true ↔ inside c cfg = false ∨ c ∈ snake s.
Proof.
  unfold collides. rewrite orb_true_iff, negb_true_iff, bool_decide_eq_true.
  done.
Qed.

(** [tick], case by case. *)
Lemma tick_dead cfg r s : alive s = false → tick cfg r s = Some s.
Proof. intros Ha. unfold tick. by rewrite Ha. Qed.

Lemma tick_crash cfg r s head rest :
  alive s = true → snake s = head :: rest →
  collides cfg s (add head (pending_dir s)) = true →
  tick cfg r s
  = Some {| snake := snake s; direction := pending_dir s;
            pending_dir := pending_dir s; alive := false;
            score := score s; food := food s |}.
Proof.
  intros Ha Hs Hc. unfold tick, collides in *. rewrite Ha, Hs in *.
  by rewrite Hc.
Qed.

Lemma tick_eat cfg r s head rest :
  alive s = true → snake s = head :: rest →
  collides cfg s (add head (pending_dir s)) = false →
  add head (pending_dir s) = food s →
  tick cfg r s
  = Some {| snake := add head (pending_dir s) :: snake s;
            direction := pending_dir s;
            pending_dir := pending_dir s; alive := true;
            score := score s + 1;
            food := random_empty_cell r
                      (list_to_set (add head (pending_dir s) :: snake s)) cfg |}.
Proof.
  intros Ha Hs Hc Hf. unfold tick, collides in *. rewrite Ha, Hs in *.
  rewrite Hc. by rewrite decide_True.
Qed.

Lemma tick_move cfg r s head rest :
  alive s = true → snake s = head :: rest →
  collides cfg s (add head (pending_dir s)) = false →
  add head (pending_dir s) ≠ food s →
  tick cfg r s
  = Some {| snake := add head (pending_dir s) :: removelast (snake s);
            direction := pending_dir s;
            pending_dir := pending_dir s; alive := true;
            score := score s; food := food s |}.
Proof.
  intros Ha Hs Hc Hf. unfold tick, collides in *. rewrite Ha, Hs in *.
  rewrite Hc. by rewrite decide_False.
Qed.

End movement.

(** ** The claims about one movement step *)

(** C1: in a live state whose new head (head plus pending direction, which
    the step commits) is inside the grid and not on the snake, the step
    succeeds and the game goes on; when the new head is the item, the new
    snake is the new head in front of the whole old snake (one cell longer),
    the score grows by one and the item is drawn again over the cells of the
    new snake; otherwise the new snake is the new head in front of the old
    snake without its last cell (same length), and score and item stay. *)
Theorem tick_advances cfg r s head rest :
  alive s = true → snake s = head :: rest →
  inside (add head (pending_dir s)) cfg = true →
  add head (pending_dir s) ∉ snake s →
  ∃ s', tick cfg r s = Some s' ∧ alive s' = true ∧
        direction s' = pending_dir s ∧
        (add head (direction s') = food s →
           snake s' = add head (direction s') :: snake s ∧
           length (snake s') = S (length (snake s)) ∧
           score s' = score s + 1 ∧
           food s' = random_empty_cell r (list_to_set (snake s')) cfg) ∧
        (add head (direction s') ≠ food s →
           (∃ body tail, snake s = body ++ [tail] ∧
                         snake s' = add head (direction s') :: body) ∧
           length (snake s') = length (snake s) ∧
           score s' = score s ∧
           food s' = food s).
Proof.
  intros Ha Hs Hin Hnot.
  assert (collides cfg s (add head (pending_dir s)) = false) as Hc
    by by apply collides_false.
  destruct (decide (add head (pending_dir s) = food s)) as [Hf|Hf].
  - eexists. split; [by eapply tick_eat|]. simpl.
    split_and!; [done|done|done|]. intros Hne. by destruct Hne.
  - eexists. split; [by eapply tick_move|]. simpl.
    split_and!; [done|done|intros Heq; by destruct Hf|].
    intros _. destruct (snoc_inv (snake s)) as (body & tail & Hb); [by rewrite Hs|].
    split_and!; [|rewrite Hb, removelast_last, length_app; simpl; lia|done|done].
    exists body, tail. by rewrite Hb at 2; rewrite removelast_last.
Qed.

(** The scenario of the growth step: 5 x 5 board, snake (2,2),(1,2),(0,2)
    moving right onto the item at (3,2). *)
Lemma tick_advances_witness :
  ∃ s', tick cfg_5x5 0 (mkState [(2,2); (1,2); (0,2)] (1,0) (1,0) true 0 (3,2)) = Some s'
        ∧ snake s' = [(3,2); (2,2); (1,2); (0,2)] ∧ score s' = 1 ∧ alive s' = true.
Proof.
  destruct (tick_advances cfg_5x5 0
              (mkState [(2,2); (1,2); (0,2)] (1,0) (1,0) true 0 (3,2))
              (2,2) [(1,2); (0,2)])
    as (s' & Ht & Ha & Hd & Heat & _).
  - reflexivity.
  - reflexivity.
  - reflexivity.
  - apply (proj1 (bool_decide_eq_false _)). reflexivity.
  - exists s'. rewrite Hd in Heat. destruct Heat as (Hsn & _ & Hsc & _); [reflexivity|].
    by rewrite Hsn, Hsc.
Defined.

(** C2: in a live state whose new head (head plus pending direction) is
    outside the grid or anywhere on the snake as it is before the move, its
    last cell included, the step ends the game and leaves snake, score and
    item as they were. *)
Theorem tick_collision cfg r s head rest :
  alive s = true → snake s = head :: rest →
  inside (add head (pending_dir s)) cfg = false
  ∨ add head (pending_dir s) ∈ snake s →
  ∃ s', tick cfg r s = Some s' ∧ alive s' = false ∧
        direction s' = pending_dir s ∧
        snake s' = snake s ∧ score s' = score s ∧ food s' = food s.
Proof.
  intros Ha Hs Hc%collides_true. eexists. split; [by eapply tick_crash|].
  done.
Qed.

(** The scenario of the wall: 5 x 5 board, snake (0,2),(1,2) moving left. *)
Lemma tick_collision_witness :
  ∃ s', tick cfg_5x5 0 (mkState [(0,2); (1,2)] (-1,0) (-1,0) true 0 (3,2)) = Some s'
        ∧ alive s' = false ∧ snake s' = [(0,2); (1,2)].
Proof.
  destruct (tick_collision cfg_5x5 0
              (mkState [(0,2); (1,2)] (-1,0) (-1,0) true 0 (3,2)) (0,2) [(1,2)])
    as (s' & Ht & Ha & _ & Hsn & _).
  - reflexivity.
  - reflexivity.
  - left. reflexivity.
  - exists s'. by rewrite Hsn.
Defined.

(** The cell the last segment is about to leave still counts: a snake of
    four cells curled into a square dies when the head turns onto the last
    one. *)
Example tick_onto_tail :
  tick cfg_5x5 0 (mkState [(1,1); (1,2); (2,2); (2,1)] (0,-1) (1,0) true 1 (4,4))
  = Some (mkState [(1,1); (1,2); (2,2); (2,1)] (1,0) (1,0) false 1 (4,4)).
Proof. reflexivity. Qed.

(** C6: once the game is over the step changes nothing: alive flag, snake,
    score, item, direction and pending direction are all as before. *)
Theorem tick_game_over cfg r s :
  alive s = false → tick cfg r s = Some s.
Proof. apply tick_dead. Qed.

Lemma tick_game_over_witness :
  tick Config0 3 (mkState [(0,2); (1,2)] (-1,0) (0,1) false 4 (3,2))
  = Some (mkState [(0,2); (1,2)] (-1,0) (0,1) false 4 (3,2)).
Proof. apply tick_game_over. reflexivity. Defined.

(** C8: when the head lands on the item and the sampler then finds no free
    cell, the step succeeds, the item is the board-full value, the game is
    still on, and the frame draws no item: only the snake is drawn. *)
Theorem tick_board_full cfg r s head rest :
  alive s = true → snake s = head :: rest →
  inside (add head (pending_dir s)) cfg = true →
  add head (pending_dir s) ∉ snake s →
  add head (pending_dir s) = food s →
  random_empty_cell r (list_to_set (add head (pending_dir s) :: snake s)) cfg
  = board_full →
  ∃ s', tick cfg r s = Some s' ∧ food s' = board_full ∧ alive s' = true ∧
        draw_food cfg s' = [] ∧ draw_cells cfg s' = draw_snake cfg s'.
Proof.
  intros Ha Hs Hin Hnot Hf Hfull.
  assert (collides cfg s (add head (pending_dir s)) = false) as Hc
    by by apply collides_false.
  eexists. split; [by eapply tick_eat|].
  unfold draw_cells, draw_food. cbn [food alive]. rewrite Hfull.
  by rewrite decide_False by (by intros []).
Qed.

(** Three cells of a 2 x 2 board taken, the item on the fourth. *)
Lemma tick_board_full_witness :
  ∃ s', tick cfg_2x2 0 (mkState [(0,0); (0,1); (1,1)] (0,-1) (1,0) true 0 (1,0)) = Some s'
        ∧ food s' = board_full ∧ alive s' = true ∧
        draw_food cfg_2x2 s' = [] ∧ draw_cells cfg_2x2 s' = draw_snake cfg_2x2 s'.
Proof.
  apply (tick_board_full cfg_2x2 0
           (mkState [(0,0); (0,1); (1,1)] (0,-1) (1,0) true 0 (1,0))
           (0,0) [(0,1); (1,1)]).
  - reflexivity.
  - reflexivity.
  - reflexivity.
  - apply (proj1 (bool_decide_eq_false _)). reflexivity.
  - reflexivity.
  - vm_compute. reflexivity.
Defined.

(** ** The closures *)

(** C7: a reset gives, whatever is drawn, a snake of three cells in a row,
    the head on the centre cell of the grid and the other two to its left,
    direction and pending direction both (1, 0), score 0, the game on, and
    as item the sampler's answer for the cells of that snake; the grid
    height not being negative, the item is not on the snake. *)
Theorem reset_game_spec cfg r :
  0 ≤ grid_height cfg →
  let s := reset_game cfg r in
  let cx := grid_width cfg `div` 2 in
  let cy := grid_height cfg `div` 2 in
  snake s = [(cx, cy); (cx - 1, cy); (cx - 2, cy)] ∧
  length (snake s) = 3%nat ∧
  direction s = (1, 0) ∧ pending_dir s = (1, 0) ∧
  score s = 0 ∧ alive s = true ∧
  food s = random_empty_cell r (list_to_set (snake s)) cfg ∧
  food s ∉ snake s.
Proof.
  intros Hh s cx cy. split_and!; try done.
  unfold s, reset_game. cbn [food snake fst snd].
  match goal with |- random_empty_cell r ?o cfg ∉ ?l =>
    destruct (random_empty_cell_cases r o cfg) as [[_ ->]|[_ Hn]%elem_of_empties]
  end.
  - unfold board_full. intros Hin.
    assert (0 ≤ grid_height cfg `div` 2) by (apply Z.div_pos; lia).
    repeat (apply elem_of_cons in Hin as [Hin|Hin]; [injection Hin; lia|]).
    by apply elem_of_nil in Hin.
  - intros Hin. apply Hn. by apply elem_of_list_to_set.
Qed.

(** The configuration of the program: head on (15, 10). *)
Lemma reset_game_spec_witness :
  snake (reset_game Config0 7) = [(15, 10); (14, 10); (13, 10)] ∧
  food (reset_game Config0 7) ∉ snake (reset_game Config0 7).
Proof.
  destruct (reset_game_spec Config0 7) as (Hs & _ & _ & _ & _ & _ & _ & Hf).
  - simpl. lia.
  - split; [exact Hs | exact Hf].
Defined.

(** C9 as stated fails in its last part: with base rate 5, a speed-up every
    5 points and a speed-up of 2, the rate at score 12 is
    5 + floor(12 / 5) * 2 = 9, not 7. *)
Lemma current_fps_at_12 :
  current_fps Config0 12 = Some 9 ∧ current_fps Config0 12 ≠ Some 7.
Proof. split; [reflexivity | discriminate]. Qed.

(** C9, amended: with a positive [speedup_every] and a non-negative
    [speedup_amount], as in the program's configuration, the frame rate at a
    non-negative score is [base_fps] plus [speedup_amount] times the floor of
    score over [speedup_every]; it never decreases as the score grows; and
    with 5, 5 and 2 it is 5 at scores 0 and 4, 7 at 5, 9 at 12, 11 at 15. *)
Theorem current_fps_spec cfg :
  0 < speedup_every cfg → 0 ≤ speedup_amount cfg →
  (∀ score_value q,
     0 ≤ score_value →
     speedup_every cfg * q ≤ score_value < speedup_every cfg * (q + 1) →
     current_fps cfg score_value = Some (base_fps cfg + q * speedup_amount cfg)) ∧
  (∀ score1 score2,
     0 ≤ score1 ≤ score2 →
     ∃ fps1 fps2, current_fps cfg score1 = Some fps1 ∧
                  current_fps cfg score2 = Some fps2 ∧ fps1 ≤ fps2) ∧
  (base_fps cfg = 5 → speedup_every cfg = 5 → speedup_amount cfg = 2 →
   current_fps cfg 0 = Some 5 ∧ current_fps cfg 4 = Some 5 ∧
   current_fps cfg 5 = Some 7 ∧ current_fps cfg 12 = Some 9 ∧
   current_fps cfg 15 = Some 11).
Proof.
  intros Hevery Hamount. unfold current_fps.
  destruct (decide (speedup_every cfg = 0)) as [|_]; [lia|]. split_and!.
  - intros score_value q _ Hq. do 3 f_equal.
    symmetry. apply (Z.div_unique_pos _ _ _ (score_value - speedup_every cfg * q)); lia.
  - intros score1 score2 H12. do 2 eexists. split_and!; [done|done|].
    assert (score1 `div` speedup_every cfg ≤ score2 `div` speedup_every cfg)
      by (apply Z.div_le_mono; lia).
    nia.
  - intros -> -> ->. split_and!; reflexivity.
Qed.

Lemma current_fps_spec_witness :
  current_fps Config0 0 = Some 5 ∧ current_fps Config0 4 = Some 5 ∧
  current_fps Config0 5 = Some 7 ∧ current_fps Config0 12 = Some 9 ∧
  current_fps Config0 15 = Some 11.
Proof.
  destruct (current_fps_spec Config0) as (_ & _ & H).
  - simpl. lia.
  - simpl. lia.
  - apply H; reflexivity.
Defined.

(** ** The sampler and the size of the occupied set *)

(** C3 as stated fails: an occupied set of two cells, one of them off the
    2 x 1 board, has the size of the board, and the sampler still finds the
    free cell (1, 0). *)
Lemma sampler_size_counterexample :
  ¬ (∀ (r : nat) (occupied : gset Vec) (cfg : Config),
       (random_empty_cell r occupied cfg ∉ occupied) ∧
       (random_empty_cell r occupied cfg = board_full ↔
        Z.of_nat (size occupied) = grid_width cfg * grid_height cfg)).
Proof.
  intros H. destruct (H 0%nat {[ (0, 0); (7, 7) ]} cfg_2x1) as [_ [_ Hfull]].
  assert (random_empty_cell 0 {[ (0, 0); (7, 7) ]} cfg_2x1 = (1, 0)) as Hr
    by (vm_compute; reflexivity).
  rewrite Hr in Hfull. discriminate Hfull. vm_compute. reflexivity.
Qed.

(** C3, amended: on a grid whose dimensions are not negative and for an
    occupied set all of whose members are inside the grid, the sampler's
    result is not a member of the occupied set, and it is the board-full
    value exactly when the size of the occupied set is width times height. *)
Theorem sampler_spec (r : nat) (occupied : gset Vec) (cfg : Config) :
  0 ≤ grid_width cfg → 0 ≤ grid_height cfg →
  (∀ c, c ∈ occupied → inside c cfg = true) →
  (random_empty_cell r occupied cfg ∉ occupied) ∧
  (random_empty_cell r occupied cfg = board_full ↔
   Z.of_nat (size occupied) = grid_width cfg * grid_height cfg).
Proof.
  intros Hw Hh Hocc. split.
  - destruct (random_empty_cell_cases r occupied cfg)
      as [[_ ->]|[_ Hn]%elem_of_empties]; [|done].
    intros Hin%Hocc. by rewrite board_full_outside in Hin.
  - rewrite random_empty_cell_full, empties_nil.
    set (grid := list_to_set (empties ∅ cfg) : gset Vec).
    assert (∀ c, c ∈ grid ↔ inside c cfg = true) as Hgrid.
    { intros c. unfold grid. rewrite elem_of_list_to_set, elem_of_empties.
      split; [by intros [? _] | intros ?; split; [done | apply not_elem_of_empty]]. }
    assert (Z.of_nat (size grid) = grid_width cfg * grid_height cfg) as Hsize.
    { unfold grid. rewrite size_list_to_set by apply NoDup_empties.
      rewrite length_empties_empty. lia. }
    assert (occupied ⊆ grid) as Hsub by (intros c Hc; by apply Hgrid, Hocc).
    split.
    + intros Hall. assert (occupied = grid) as ->; [|done].
      apply set_eq. intros c. split; [apply Hsub|]. intros Hc. by apply Hall, Hgrid.
    + intros Hsz c Hc.
      assert (occupied = grid) as ->; [|by apply Hgrid].
      apply set_subseteq_size_eq; [done|lia].
Qed.

(** Both cells of the 2 x 1 board taken: the board is full. *)
Lemma sampler_spec_witness :
  (random_empty_cell 5 {[ (0, 0); (1, 0) ]} cfg_2x1 ∉ ({[ (0, 0); (1, 0) ]} : gset Vec)) ∧
  (random_empty_cell 5 {[ (0, 0); (1, 0) ]} cfg_2x1 = board_full ↔
   Z.of_nat (size ({[ (0, 0); (1, 0) ]} : gset Vec)) = 2 * 1).
Proof.
  apply (sampler_spec 5 {[ (0, 0); (1, 0) ]} cfg_2x1).
  - simpl. lia.
  - simpl. lia.
  - intros c Hc.
    apply elem_of_union in Hc as [Hc|Hc]; apply elem_of_singleton in Hc;
      subst c; reflexivity.
Defined.

(** ** Key presses *)

Section keys.
Implicit Types (cfg : Config) (s : State) (key : Key) (keys : list Key).

Lemma direction_input_dead s key : alive s = false → direction_input s key = s.
Proof. intros Ha. unfold direction_input. by rewrite Ha. Qed.

(** A key press touches the pending direction only. *)
Lemma direction_input_frame s key :
  snake (direction_input s key) = snake s ∧
  direction (direction_input s key) = direction s ∧
  alive (direction_input s key) = alive s ∧
  score (direction_input s key) = score s ∧
  food (direction_input s key) = food s.
Proof.
  unfold direction_input.
  destruct (alive s) eqn:Ha, key; try done; by case_decide.
Qed.

Lemma direction_input_rejected s key d :
  key_dir key = Some d → dir_vec d = neg (direction s) →
  direction_input s key = s.
Proof.
  intros Hk Hd. unfold direction_input. destruct (alive s); [|done].
  assert (direction s = neg (dir_vec d)) as Hdir.
  { rewrite Hd. destruct (direction s) as [x y]. unfold neg; simpl.
    f_equal; lia. }
  destruct key, d; try discriminate Hk;
    (rewrite decide_False; [done | rewrite Hdir; intros Hne; by apply Hne]).
Qed.

Lemma direction_input_accepted s key d :
  alive s = true → key_dir key = Some d → dir_vec d ≠ neg (direction s) →
  direction_input s key = with_pending s (dir_vec d).
Proof.
  intros Ha Hk Hd. unfold direction_input. rewrite Ha.
  destruct key, d; try discriminate Hk; rewrite decide_True; try done.
  all: intros Hdir; apply Hd; by rewrite Hdir.
Qed.

Lemma direction_input_pending s key :
  alive s = true →
  pending_dir (direction_input s key) = default (pending_dir s) (accepted s key).
Proof.
  intros Ha. unfold accepted. destruct (key_dir key) as [d|] eqn:Hk.
  - case_decide as Hd.
    + by rewrite (direction_input_rejected s key d).
    + by rewrite (direction_input_accepted s key d).
  - unfold direction_input. rewrite Ha. by destruct key.
Qed.

Lemma accepted_direction s1 s2 key :
  direction s1 = direction s2 → accepted s1 key = accepted s2 key.
Proof. intros Hd. unfold accepted. by rewrite Hd. Qed.

Lemma last_accepted_direction s1 s2 keys :
  direction s1 = direction s2 → last_accepted s1 keys = last_accepted s2 keys.
Proof.
  intros Hd. unfold last_accepted. f_equal.
  induction keys as [|key keys IH]; [done|]. csimpl.
  by rewrite (accepted_direction s1 s2), IH.
Qed.

Lemma press_all_frame s keys :
  snake (press_all s keys) = snake s ∧
  direction (press_all s keys) = direction s ∧
  alive (press_all s keys) = alive s ∧
  score (press_all s keys) = score s ∧
  food (press_all s keys) = food s.
Proof.
  revert s. induction keys as [|key keys IH]; intros s; [done|].
  unfold press_all in *. simpl.
  destruct (IH (direction_input s key)) as (-> & -> & -> & -> & ->).
  apply direction_input_frame.
Qed.

Lemma press_all_pending s keys :
  alive s = true →
  pending_dir (press_all s keys) = default (pending_dir s) (last_accepted s keys).
Proof.
  revert s. induction keys as [|key keys IH]; intros s Ha; [done|].
  destruct (direction_input_frame s key) as (_ & Hdir & Hal & _).
  change (press_all s (key :: keys)) with (press_all (direction_input s key) keys).
  rewrite IH by by rewrite Hal.
  rewrite (last_accepted_direction _ s) by done.
  rewrite direction_input_pending by done.
  unfold last_accepted. csimpl.
  destruct (accepted s key) as [v|]; [|done].
  rewrite last_cons. by destruct (last _).
Qed.

(** In the event loop a direction key goes to [direction_input]. *)
Lemma handle_event_direction cfg r s key d :
  key_dir key = Some d →
  handle_event cfg r s (KEYDOWN key) = Continue (direction_input s key).
Proof.
  intros Hk. unfold handle_event.
  destruct key; try discriminate Hk; simpl; by rewrite andb_false_r.
Qed.

End keys.

(** C5: a direction key does nothing once the game is over; while the game
    is on, a request for the exact opposite of the committed direction
    leaves the state, and so the pending direction, as it is, and any other
    request becomes the pending direction; after any series of key presses
    the next movement step commits the last request that was accepted (the
    pending direction from before when none was). *)
Theorem direction_input_spec s :
  (∀ key, alive s = false → direction_input s key = s) ∧
  (∀ key d, alive s = true → key_dir key = Some d →
            dir_vec d = neg (direction s) → direction_input s key = s) ∧
  (∀ key d, alive s = true → key_dir key = Some d →
            dir_vec d ≠ neg (direction s) →
            pending_dir (direction_input s key) = dir_vec d ∧
            direction_input s key = with_pending s (dir_vec d)) ∧
  (∀ cfg r keys, alive s = true → snake s ≠ [] →
     ∃ s', tick cfg r (press_all s keys) = Some s' ∧
           direction s' = default (pending_dir s) (last_accepted s keys)).
Proof.
  split_and!.
  - intros key. apply direction_input_dead.
  - intros key d _. apply direction_input_rejected.
  - intros key d Ha Hk Hd. by rewrite (direction_input_accepted s key d).
  - intros cfg r keys Ha Hs.
    destruct (press_all_frame s keys) as (Hsn & _ & Hal & _).
    pose proof (press_all_pending s keys Ha) as Hp.
    unfold tick. rewrite Hal, Ha, Hsn.
    destruct (snake s) as [|head rest]; [done|].
    repeat case_match; eexists; (split; [done|]); simpl; by rewrite <- Hp.
Qed.

(** Moving right, [K_UP] is accepted and the [K_LEFT] after it is not: the
    step goes up. *)
Lemma direction_input_spec_witness :
  ∃ s', tick Config0 0
          (press_all (mkState [(15,10); (14,10); (13,10)] (1,0) (1,0) true 0 (3,2))
                     [K_UP; K_LEFT]) = Some s'
        ∧ direction s' = (0, -1).
Proof.
  destruct (direction_input_spec
              (mkState [(15,10); (14,10); (13,10)] (1,0) (1,0) true 0 (3,2)))
    as (_ & _ & _ & H).
  apply (H Config0 0%nat [K_UP; K_LEFT]); [reflexivity | discriminate].
Defined.

(** ** Invariants of the reachable states *)

Section invariants.
Implicit Types (cfg : Config) (s : State) (i : Input) (inputs : list Input).

Lemma pop_take (l : list Vec) : pop l = take (pred (length l)) l.
Proof. apply removelast_firstn_len. Qed.

Lemma step_chain_ok cfg s i s' :
  step cfg s i = Some s' → chain_ok cfg s → chain_ok cfg s'.
Proof.
  intros Hstep [Hnd Hin]. unfold chain_ok. revert Hstep.
  destruct i as [r|key]; simpl; intros Hstep.
  - revert Hstep. unfold tick. destruct (alive s); [|intros; by simplify_eq].
    destruct (snake s) as [|head rest] eqn:Hs; [done|].
    destruct (negb _ || _) eqn:Hc; [intros; by simplify_eq|].
    apply orb_false_iff in Hc as [Hi%negb_false_iff Hm%bool_decide_eq_false].
    assert (NoDup (add head (pending_dir s) :: head :: rest)) as Hnd1
      by by apply NoDup_cons.
    assert (Forall (λ c, inside c cfg = true)
              (add head (pending_dir s) :: head :: rest)) as Hin1
      by by apply Forall_cons.
    case_decide; intros; simplify_eq; cbn [snake]; [done|].
    rewrite pop_take. split.
    + eapply sublist_NoDup; [exact Hnd1 | apply sublist_take].
    + by apply Forall_take.
  - simplify_eq. by destruct (direction_input_frame s key) as (-> & _).
Qed.

Lemma run_inputs_chain_ok cfg inputs s s' :
  run_inputs cfg s inputs = Some s' → chain_ok cfg s → chain_ok cfg s'.
Proof.
  revert s. induction inputs as [|i inputs IH]; intros s Hrun Hok; simpl in Hrun.
  - by simplify_eq.
  - destruct (step cfg s i) as [s1|] eqn:Hstep; [|done].
    eapply IH; [done|]. by eapply step_chain_ok.
Qed.

Lemma reset_game_chain_ok cfg r :
  4 ≤ grid_width cfg → 1 ≤ grid_height cfg → chain_ok cfg (reset_game cfg r).
Proof.
  intros Hw Hh. unfold chain_ok, reset_game. cbn [snake fst snd].
  assert (2 ≤ grid_width cfg `div` 2 < grid_width cfg)
    by (split; [apply Z.div_le_lower_bound | apply Z.div_lt_upper_bound]; lia).
  assert (0 ≤ grid_height cfg `div` 2 < grid_height cfg)
    by (split; [apply Z.div_pos | apply Z.div_lt_upper_bound]; lia).
  split.
  - repeat (apply NoDup_cons; split); [| |apply not_elem_of_nil|apply NoDup_nil_2].
    + intros Hin.
      repeat (apply elem_of_cons in Hin as [Hin|Hin]; [injection Hin; lia|]).
      by apply elem_of_nil in Hin.
    + intros Hin.
      repeat (apply elem_of_cons in Hin as [Hin|Hin]; [injection Hin; lia|]).
      by apply elem_of_nil in Hin.
  - repeat (apply Forall_cons; split); [..|apply Forall_nil_2];
      apply inside_spec; simpl; lia.
Qed.

(** One step: it succeeds on a non-empty snake, never shortens it, and the
    score grows with the length, by one exactly when the item is
    consumed. *)
Lemma step_score cfg s i :
  snake s ≠ [] →
  ∃ s', step cfg s i = Some s' ∧
        (length (snake s) ≤ length (snake s'))%nat ∧
        score s' - Z.of_nat (length (snake s'))
        = score s - Z.of_nat (length (snake s)) ∧
        score s'
        = score s + Z.of_nat match i with
                             | Tick _ => if eats cfg s then 1 else 0
                             | Press _ => 0
                             end.
Proof.
  intros Hne. destruct i as [r|key]; simpl.
  - unfold tick, eats, next_head, collides.
    destruct (alive s);
      [|exists s; split; [reflexivity|]; split_and!; simpl; lia].
    destruct (snake s) as [|head rest] eqn:Hs; [congruence|].
    destruct (negb _ || _) eqn:Hc.
    { eexists. split; [reflexivity|]. cbn [snake score length].
      split_and!; simpl; lia. }
    destruct (decide (add head (pending_dir s) = food s)) as [Hf|Hf].
    + rewrite (bool_decide_eq_true_2 _ Hf).
      eexists. split; [reflexivity|]. cbn [snake score length].
      split_and!; simpl; lia.
    + rewrite (bool_decide_eq_false_2 _ Hf).
      eexists. split; [reflexivity|]. cbn [snake score]. rewrite pop_take.
      rewrite length_take. cbn [length]. split_and!; simpl; lia.
  - eexists. split; [done|].
    destruct (direction_input_frame s key) as (-> & _ & _ & -> & _). lia.
Qed.

Lemma run_inputs_score cfg inputs s :
  snake s ≠ [] →
  ∃ s', run_inputs cfg s inputs = Some s' ∧
        (length (snake s) ≤ length (snake s'))%nat ∧
        score s' - Z.of_nat (length (snake s'))
        = score s - Z.of_nat (length (snake s)) ∧
        score s' = score s + Z.of_nat (eaten cfg s inputs).
Proof.
  revert s. induction inputs as [|i inputs IH]; intros s Hne; simpl.
  - exists s. split_and!; [done|done|done|lia].
  - destruct (step_score cfg s i Hne) as (s1 & -> & Hlen & Hdiff & Hsc).
    destruct (IH s1) as (s' & -> & Hlen' & Hdiff' & Hsc').
    { intros Hnil. destruct (snake s); [done|]. rewrite Hnil in Hlen.
      simpl in Hlen. lia. }
    exists s'. split_and!; [done|lia|lia|lia].
Qed.

End invariants.

(** C4: on a grid at least 4 wide and 1 high, as the program's 30 x 20
    one, every state reached from a reset by movement steps and key presses
    has a snake whose cells are pairwise distinct and all inside the
    grid. *)
Theorem reachable_chain_ok cfg s :
  4 ≤ grid_width cfg → 1 ≤ grid_height cfg →
  reachable cfg s →
  NoDup (snake s) ∧
  ∀ c, c ∈ snake s → 0 ≤ c.1 < grid_width cfg ∧ 0 ≤ c.2 < grid_height cfg.
Proof.
  intros Hw Hh (r0 & inputs & Hrun).
  destruct (run_inputs_chain_ok cfg inputs _ s Hrun) as [Hnd Hin].
  { by apply reset_game_chain_ok. }
  split; [done|]. intros c Hc. apply inside_spec.
  by apply (proj1 (Forall_forall _ _) Hin).
Qed.

(** The program's grid; a turn upwards and three steps after the reset. *)
Lemma reachable_chain_ok_witness :
  let s := mkState [(16,8); (16,9); (16,10)] (0,-1) (0,-1) true 0 (18,13) in
  NoDup (snake s) ∧
  ∀ c, c ∈ snake s → 0 ≤ c.1 < 30 ∧ 0 ≤ c.2 < 20.
Proof.
  apply (reachable_chain_ok Config0).
  - simpl. lia.
  - simpl. lia.
  - exists 405%nat, [Tick 0; Press K_UP; Tick 0; Tick 0].
    vm_compute. reflexivity.
Defined.

(** C10: whatever is drawn at the reset and whatever movement steps and key
    presses follow, the run never fails on the head access and ends in a
    state whose score is the length of the snake minus 3; the snake has at
    least 3 cells, so it is not empty; and the score is the number of items
    consumed on the way. *)
Theorem score_is_growth cfg r0 inputs :
  ∃ s, run_inputs cfg (reset_game cfg r0) inputs = Some s ∧
       score s = Z.of_nat (length (snake s)) - 3 ∧
       (3 ≤ length (snake s))%nat ∧
       snake s ≠ [] ∧
       is_Some (next_head s) ∧
       score s = Z.of_nat (eaten cfg (reset_game cfg r0) inputs).
Proof.
  destruct (run_inputs_score cfg inputs (reset_game cfg r0))
    as (s & Hrun & Hlen & Hdiff & Hsc); [done|].
  simpl in Hlen, Hdiff, Hsc. exists s.
  assert (snake s ≠ []) as Hne by (intros Hnil; rewrite Hnil in Hlen; simpl in Hlen; lia).
  split_and!; [done|lia|done|done| |lia].
  unfold next_head. destruct (snake s); [done|eauto].
Qed.

(** ** Remarks on small grids *)

(** On a grid less than 4 wide the reset itself puts a cell of the snake
    off the board: here the third cell, on a 2 x 2 grid. *)
Example reset_game_narrow_grid :
  snake (reset_game cfg_2x2 0) = [(1, 1); (0, 1); (-1, 1)] ∧
  inside (-1, 1) cfg_2x2 = false.
Proof. split; reflexivity. Qed.

(** On a grid at least 3 wide and 1 high the cell right of the head is free
    at the reset, so the first item is a cell of the board. *)
Lemma reset_game_food_inside cfg r :
  3 ≤ grid_width cfg → 1 ≤ grid_height cfg →
  inside (food (reset_game cfg r)) cfg = true.
Proof.
  intros Hw Hh. unfold reset_game. cbn [food fst snd].
  match goal with |- inside (random_empty_cell r ?o cfg) cfg = true =>
    destruct (random_empty_cell_cases r o cfg) as [[He _]|[Hin _]%elem_of_empties];
      [|done]
  end.
  assert (1 ≤ grid_width cfg `div` 2) by (apply Z.div_le_lower_bound; lia).
  assert (grid_width cfg `div` 2 + 1 < grid_width cfg).
  { destruct (Z.eq_dec (grid_width cfg) 3) as [->|]; [reflexivity|].
    assert (grid_width cfg `div` 2 < grid_width cfg - 1); [|lia].
    apply Z.div_lt_upper_bound; lia. }
  assert (0 ≤ grid_height cfg `div` 2 < grid_height cfg)
    by (split; [apply Z.div_pos | apply Z.div_lt_upper_bound]; lia).
  exfalso.
  assert ((grid_width cfg `div` 2 + 1, grid_height cfg `div` 2)
          ∈ @nil Vec) as Hnil; [|by apply elem_of_nil in Hnil].
  rewrite <- He. apply elem_of_empties. split; [apply inside_spec; simpl; lia|].
  rewrite elem_of_list_to_set. intros Hin.
  repeat (apply elem_of_cons in Hin as [Hin|Hin]; [injection Hin; lia|]).
  by apply elem_of_nil in Hin.
Qed.

(** ** What every pass of the loop keeps *)

Section loop_invariant.
Implicit Types (cfg : Config) (s : State) (r : nat) (v : Vec) (l : list Vec).

Lemma unit_vec_not_neg v : unit_vec v → v ≠ neg v.
Proof. intros [d ->]. by destruct d. Qed.

Lemma contiguous_removelast l : contiguous l → contiguous (removelast l).
Proof.
  induction l as [|a [|b [|c l]] IH]; try done.
  intros [Hab Hrest]. split; [done|]. by apply IH.
Qed.

Lemma elem_of_removelast l c : c ∈ removelast l → c ∈ l.
Proof.
  rewrite removelast_firstn_len.
  intros Hc. eapply elem_of_sublist; [done|]. apply sublist_take.
Qed.

Lemma length_removelast_cons c l : length (removelast (c :: l)) = length l.
Proof. rewrite removelast_firstn_len, length_take. simpl. lia. Qed.

(** The item after a draw over the cells of a snake. *)
Lemma food_ok_fresh cfg r s :
  food s = random_empty_cell r (list_to_set (snake s)) cfg → food_ok cfg s.
Proof.
  intros Hf. unfold food_ok. rewrite Hf.
  destruct (random_empty_cell_cases r (list_to_set (snake s)) cfg)
    as [[_ ->]|[Hin Hn]%elem_of_empties]; [by left|right].
  split; [done|]. intros Hc. apply Hn. by apply elem_of_list_to_set.
Qed.

Lemma reset_game_inv cfg r : game_inv cfg (reset_game cfg r).
Proof.
  unfold game_inv. split_and!.
  - done.
  - done.
  - split_and!; [by exists Right|by exists Right|done].
  - intros _ head neck rest Hs. simpl in Hs. simplify_eq.
    unfold add. simpl. f_equal; lia.
  - simpl. split_and!; [| |done]; exists Right; unfold add; simpl; f_equal; lia.
  - by apply (food_ok_fresh cfg r).
Qed.

Lemma direction_input_inv cfg s key :
  game_inv cfg s → game_inv cfg (direction_input s key).
Proof.
  intros (Hlen & Hsc & (Hd & Hp & Hrev) & Hneck & Hcont & Hfood).
  destruct (direction_input_frame s key) as (Hsn & Hdir & Hal & Hscore & Hfd).
  unfold game_inv, steering_ok, neck_ok, food_ok.
  rewrite Hsn, Hdir, Hal, Hscore, Hfd. split_and!; try done.
  - destruct (alive s) eqn:Ha; [|by rewrite direction_input_dead].
    rewrite direction_input_pending by done. unfold accepted.
    destruct (key_dir key) as [d|]; [|done].
    case_decide; [done|by exists d].
  - destruct (alive s) eqn:Ha; [|by rewrite direction_input_dead].
    rewrite direction_input_pending by done. unfold accepted.
    destruct (key_dir key) as [d|]; [|done].
    by case_decide.
Qed.

Lemma tick_inv cfg r s s' :
  game_inv cfg s → tick cfg r s = Some s' → game_inv cfg s'.
Proof.
  intros (Hlen & Hsc & (Hd & Hp & Hrev) & Hneck & Hcont & Hfood) Ht.
  destruct (alive s) eqn:Ha; [|rewrite tick_dead in Ht by done; by simplify_eq].
  unfold food_ok in Hfood.
  destruct (snake s) as [|head rest] eqn:Hs; [simpl in Hlen; lia|].
  assert (∀ sn al sc fd,
            steering_ok (mkState sn (pending_dir s) (pending_dir s) al sc fd))
    as Hsteer.
  { intros. split_and!; [done|done|by apply unit_vec_not_neg]. }
  destruct (collides cfg s (add head (pending_dir s))) eqn:Hc.
  { rewrite (tick_crash cfg r s head rest) in Ht by done.
    injection Ht as <-. unfold game_inv, food_ok. cbn [snake score food].
    rewrite Hs. split_and!; [done|done|apply Hsteer|done|done|done]. }
  pose proof Hc as [Hin Hnot]%collides_false.
  destruct Hp as [d Hpd].
  destruct (decide (add head (pending_dir s) = food s)) as [Hf|Hf].
  - rewrite (tick_eat cfg r s head rest) in Ht by done.
    injection Ht as <-. unfold game_inv. cbn [snake score].
    rewrite Hs. split_and!.
    + simpl in *. lia.
    + simpl length in *. lia.
    + apply Hsteer.
    + intros _ h n t Heq. cbn [snake direction] in *.
      by injection Heq as <- <- <-.
    + split; [exists d; by rewrite <- Hpd | done].
    + by apply (food_ok_fresh cfg r).
  - rewrite (tick_move cfg r s head rest) in Ht by done.
    injection Ht as <-. unfold game_inv, food_ok. cbn [snake score food].
    rewrite Hs.
    destruct rest as [|neck rest]; [simpl in Hlen; lia|].
    change (removelast (head :: neck :: rest))
      with (head :: removelast (neck :: rest)).
    split_and!.
    + cbn [length] in *. rewrite length_removelast_cons. lia.
    + cbn [length] in *. rewrite length_removelast_cons. lia.
    + apply Hsteer.
    + intros _ h n t Heq. cbn [snake direction] in *.
      by injection Heq as <- <- <-.
    + split; [exists d; by rewrite <- Hpd|].
      change (contiguous (removelast (head :: neck :: rest))).
      by apply contiguous_removelast.
    + destruct Hfood as [Hfull|[Hfin Hfnot]]; [by left|right].
      split; [done|].
      intros [Heq|Hm]%elem_of_cons; [by apply Hf|].
      apply Hfnot.
      change (food s ∈ removelast (head :: neck :: rest)) in Hm.
      by apply elem_of_removelast.
Qed.

End loop_invariant.

(** ** Carrying a property through runs and passes *)

Section preserved.
Variables (cfg : Config) (P : State → Prop).
Hypothesis P_reset : ∀ r, P (reset_game cfg r).
Hypothesis P_key : ∀ s key, P s → P (direction_input s key).
Hypothesis P_tick : ∀ s r s', P s → tick cfg r s = Some s' → P s'.

Lemma run_inputs_preserved inputs s s' :
  P s → run_inputs cfg s inputs = Some s' → P s'.
Proof.
  revert s. induction inputs as [|i inputs IH]; intros s HP Hrun; simpl in Hrun.
  - by simplify_eq.
  - destruct (step cfg s i) as [s1|] eqn:Hstep; [|done].
    apply (IH s1); [|done].
    destruct i as [r|key]; simpl in Hstep; [by eapply P_tick|].
    simplify_eq. by apply P_key.
Qed.

Lemma reachable_preserved s : reachable cfg s → P s.
Proof.
  intros (r0 & inputs & Hrun). by eapply run_inputs_preserved.
Qed.

Lemma handle_event_preserved r s event s' :
  P s → handle_event cfg r s event = Continue s' → P s'.
Proof.
  intros HP. unfold handle_event. destruct event as [|key|]; [done| |by intros [= <-]].
  repeat case_match; try done; intros [= <-]; [apply P_reset|by apply P_key].
Qed.

Lemma handle_events_preserved events s s' :
  P s → handle_events cfg s events = Continue s' → P s'.
Proof.
  revert s. induction events as [|[event r] events IH]; intros s HP He; simpl in He.
  - by simplify_eq.
  - destruct (handle_event cfg r s event) as [|s1] eqn:H1; [done|].
    apply (IH s1); [|done]. by eapply handle_event_preserved.
Qed.

Lemma frame_preserved events r s s' cells fps :
  P s → frame cfg events r s = Some (FrameDone s' cells fps) → P s'.
Proof.
  intros HP. unfold frame.
  destruct (handle_events cfg s events) as [|s1] eqn:He; [done|].
  destruct (tick cfg r s1) as [s2|] eqn:Ht; [|done].
  destruct (current_fps cfg (score s2)); [|done].
  intros [= <- _ _]. eapply P_tick; [|done]. by eapply handle_events_preserved.
Qed.

Lemma run_frames_preserved frames s s' :
  P s → run_frames cfg s frames = Some (Continue s') → P s'.
Proof.
  revert s. induction frames as [|[events r] frames IH]; intros s HP Hrun;
    simpl in Hrun.
  - by simplify_eq.
  - destruct (frame cfg events r s) as [[|s1 cells fps]|] eqn:Hf; try done.
    apply (IH s1); [|done]. by eapply frame_preserved.
Qed.

End preserved.

Section loop_facts.
Implicit Types (cfg : Config) (s : State) (r : nat).

Lemma win_ok_fresh cfg r s :
  food s = random_empty_cell r (list_to_set (snake s)) cfg → win_ok cfg s.
Proof.
  intros Hf Hfull c Hc. rewrite Hf in Hfull.
  apply random_empty_cell_full in Hfull.
  apply (elem_of_list_to_set (C:=gset Vec)).
  by apply (proj1 (empties_nil _ _) Hfull).
Qed.

Lemma direction_input_win_ok cfg s key :
  win_ok cfg s → win_ok cfg (direction_input s key).
Proof.
  destruct (direction_input_frame s key) as (Hsn & _ & _ & _ & Hfd).
  unfold win_ok. by rewrite Hsn, Hfd.
Qed.

Lemma tick_win_ok cfg r s s' :
  win_ok cfg s → tick cfg r s = Some s' → win_ok cfg s'.
Proof.
  intros Hwin Ht.
  destruct (alive s) eqn:Ha; [|rewrite tick_dead in Ht by done; by simplify_eq].
  destruct (snake s) as [|head rest] eqn:Hs; [unfold tick in Ht; by rewrite Ha, Hs in Ht|].
  destruct (collides cfg s (add head (pending_dir s))) eqn:Hc.
  { rewrite (tick_crash cfg r s head rest) in Ht by done.
    injection Ht as <-. exact Hwin. }
  pose proof Hc as [Hin Hnot]%collides_false.
  destruct (decide (add head (pending_dir s) = food s)) as [Hf|Hf].
  - rewrite (tick_eat cfg r s head rest) in Ht by done.
    injection Ht as <-. by apply (win_ok_fresh cfg r).
  - rewrite (tick_move cfg r s head rest) in Ht by done.
    injection Ht as <-. intros Hfull c Hc'. cbn [food] in Hfull.
    destruct Hnot. by apply Hwin.
Qed.

Lemma tick_chain_ok cfg r s s' :
  chain_ok cfg s → tick cfg r s = Some s' → chain_ok cfg s'.
Proof. intros Hok Ht. by apply (step_chain_ok cfg s (Tick r) s'). Qed.

Lemma direction_input_chain_ok cfg s key :
  chain_ok cfg s → chain_ok cfg (direction_input s key).
Proof. intros Hok. by apply (step_chain_ok cfg s (Press key)). Qed.


End loop_facts.

(** ** More on the sampler *)

(** X1: the values the sampler can return, over all draws, are exactly the
    cells of the grid that are not occupied; the board-full value is
    returned exactly when there is no such cell. *)
Theorem random_empty_cell_results (occupied : gset Vec) (cfg : Config) (c : Vec) :
  (∃ r, random_empty_cell r occupied cfg = c) ↔
  (inside c cfg = true ∧ c ∉ occupied) ∨
  (c = board_full ∧ ∀ c', inside c' cfg = true → c' ∈ occupied).
Proof.
  split.
  - intros [r <-].
    destruct (random_empty_cell_cases r occupied cfg) as [[He ->]|Hin].
    + right. split; [done|]. by apply empties_nil.
    + left. by apply elem_of_empties.
  - intros [Hfree|[-> Hall]].
    + apply elem_of_empties in Hfree.
      destruct (choice_any _ _ Hfree) as [r Hr]. exists r.
      unfold random_empty_cell. rewrite Hr.
      destruct (empties occupied cfg); [by apply elem_of_nil in Hfree|done].
    + exists 0%nat. by apply random_empty_cell_full, empties_nil.
Qed.

(** The cells of the grid as a set: membership is [inside], and there are
    width * height of them. *)
Lemma grid_cells_spec (cfg : Config) :
  0 ≤ grid_width cfg → 0 ≤ grid_height cfg →
  (∀ c, c ∈ (list_to_set (empties ∅ cfg) : gset Vec) ↔ inside c cfg = true) ∧
  Z.of_nat (size (list_to_set (empties ∅ cfg) : gset Vec))
  = grid_width cfg * grid_height cfg.
Proof.
  intros Hw Hh. split.
  - intros c. rewrite elem_of_list_to_set, elem_of_empties.
    split; [by intros [? _]|]. intros ?. split; [done|apply not_elem_of_empty].
  - rewrite size_list_to_set by apply NoDup_empties.
    rewrite length_empties_empty. lia.
Qed.

(** X2: on a grid with non-negative dimensions and an occupied set inside
    it, the sampler chooses among width * height - size(occupied) cells, each
    listed once. *)
Theorem length_empties (occupied : gset Vec) (cfg : Config) :
  0 ≤ grid_width cfg → 0 ≤ grid_height cfg →
  (∀ c, c ∈ occupied → inside c cfg = true) →
  NoDup (empties occupied cfg) ∧
  Z.of_nat (length (empties occupied cfg))
  = grid_width cfg * grid_height cfg - Z.of_nat (size occupied).
Proof.
  intros Hw Hh Hocc. split; [apply NoDup_empties|].
  destruct (grid_cells_spec cfg Hw Hh) as [Hgrid Hsize].
  set (grid := list_to_set (empties ∅ cfg) : gset Vec) in *.
  assert (occupied ⊆ grid) as Hsub by (intros c Hc; by apply Hgrid, Hocc).
  assert (list_to_set (empties occupied cfg) = grid ∖ occupied) as Hdiff.
  { apply set_eq. intros c.
    rewrite elem_of_difference, Hgrid, elem_of_list_to_set, elem_of_empties.
    done. }
  rewrite <- (size_list_to_set (C:=gset Vec)) by apply NoDup_empties.
  rewrite Hdiff, size_difference by done.
  apply subseteq_size in Hsub. lia.
Qed.

Lemma length_empties_witness :
  NoDup (empties {[ (0, 0) ]} cfg_2x2) ∧
  Z.of_nat (length (empties {[ (0, 0) ]} cfg_2x2))
  = 2 * 2 - Z.of_nat (size ({[ (0, 0) ]} : gset Vec)).
Proof.
  apply (length_empties {[ (0, 0) ]} cfg_2x2).
  - simpl. lia.
  - simpl. lia.
  - intros c Hc. apply elem_of_singleton in Hc. subst c. reflexivity.
Defined.

(** ** Drawing *)






(** ** More on the reachable states *)

Lemma reachable_game_inv cfg s : reachable cfg s → game_inv cfg s.
Proof.
  apply reachable_preserved.
  - apply reset_game_inv.
  - intros ? ?. apply direction_input_inv.
  - intros ? ? ?. apply tick_inv.
Qed.

Lemma reachable_win_ok cfg s : reachable cfg s → win_ok cfg s.
Proof.
  apply reachable_preserved.
  - intros r. by apply (win_ok_fresh cfg r).
  - intros ? ?. apply direction_input_win_ok.
  - intros ? ? ?. apply tick_win_ok.
Qed.

Lemma reachable_chain cfg s :
  4 ≤ grid_width cfg → 1 ≤ grid_height cfg → reachable cfg s → chain_ok cfg s.
Proof.
  intros Hw Hh. apply reachable_preserved.
  - intros r. by apply reset_game_chain_ok.
  - intros ? ?. apply direction_input_chain_ok.
  - intros ? ? ?. apply tick_chain_ok.
Qed.

(** X5: in every reachable state the committed and the pending direction
    are grid steps, the pending one is not the reverse of the committed one,
    and no movement step reverses the committed direction. *)
Theorem reachable_no_reversal cfg s :
  reachable cfg s →
  unit_vec (direction s) ∧ unit_vec (pending_dir s) ∧
  pending_dir s ≠ neg (direction s) ∧
  ∀ r s', tick cfg r s = Some s' → direction s' ≠ neg (direction s).
Proof.
  intros (_ & _ & (Hd & Hp & Hrev) & _)%reachable_game_inv.
  split_and!; try done. intros r s'. unfold tick.
  destruct (alive s); [|intros [= <-]; by apply unit_vec_not_neg].
  destruct (snake s); [done|]. repeat case_match; by intros [= <-].
Qed.

Lemma reachable_no_reversal_witness :
  let s := mkState [(16,8); (16,9); (16,10)] (0,-1) (0,-1) true 0 (18,13) in
  unit_vec (direction s) ∧ unit_vec (pending_dir s) ∧
  pending_dir s ≠ neg (direction s) ∧
  ∀ r s', tick Config0 r s = Some s' → direction s' ≠ neg (direction s).
Proof.
  apply (reachable_no_reversal Config0).
  exists 405%nat, [Tick 0; Press K_UP; Tick 0; Tick 0]. vm_compute. reflexivity.
Defined.

(** X6: in a reachable state with the game on, the cell the head is about
    to enter is never the cell right behind the head. *)
Theorem reachable_no_neck_bite cfg s head neck rest :
  reachable cfg s → alive s = true → snake s = head :: neck :: rest →
  add head (pending_dir s) ≠ neck.
Proof.
  intros (_ & _ & (_ & _ & Hrev) & Hneck & _)%reachable_game_inv Ha Hs Hbite.
  apply Hrev. rewrite (Hneck Ha _ _ _ Hs) in Hbite.
  destruct neck as [nx ny], (direction s) as [dx dy], (pending_dir s) as [px py].
  unfold add, neg in *. simpl in *. injection Hbite as Hx Hy. f_equal; lia.
Qed.

Lemma reachable_no_neck_bite_witness :
  add (16, 8) (0, -1) ≠ (16, 9).
Proof.
  apply (reachable_no_neck_bite Config0
           (mkState [(16,8); (16,9); (16,10)] (0,-1) (0,-1) true 0 (18,13))
           (16, 8) (16, 9) [(16, 10)]).
  - exists 405%nat, [Tick 0; Press K_UP; Tick 0; Tick 0]. vm_compute. reflexivity.
  - reflexivity.
  - reflexivity.
Defined.

(** X7: in every reachable state each cell of the snake is one grid step
    away from the next one. *)
Theorem reachable_contiguous cfg s :
  reachable cfg s → contiguous (snake s).
Proof. by intros (_ & _ & _ & _ & Hc & _)%reachable_game_inv. Qed.

Lemma reachable_contiguous_witness :
  contiguous [(16,8); (16,9); (16,10)].
Proof.
  apply (reachable_contiguous Config0
           (mkState [(16,8); (16,9); (16,10)] (0,-1) (0,-1) true 0 (18,13))).
  exists 405%nat, [Tick 0; Press K_UP; Tick 0; Tick 0]. vm_compute. reflexivity.
Defined.

(** X8: on a grid at least 4 wide and 1 high, in every reachable state the
    item is not on the snake, and it is either the board-full value or a
    cell of the grid. *)
Theorem reachable_food_off_snake cfg s :
  4 ≤ grid_width cfg → 1 ≤ grid_height cfg → reachable cfg s →
  (food s ∉ snake s) ∧ (food s = board_full ∨ inside (food s) cfg = true).
Proof.
  intros Hw Hh Hr.
  destruct (reachable_chain cfg s Hw Hh Hr) as [_ Hin].
  destruct (reachable_game_inv cfg s Hr) as (_ & _ & _ & _ & _ & [Hf|[Hf Hn]]).
  - split; [|by left]. rewrite Hf. intros Hbf.
    apply (proj1 (Forall_forall _ _) Hin) in Hbf.
    by rewrite board_full_outside in Hbf.
  - split; [done|by right].
Qed.

Lemma reachable_food_off_snake_witness :
  let s := mkState [(16,8); (16,9); (16,10)] (0,-1) (0,-1) true 0 (18,13) in
  (food s ∉ snake s) ∧ (food s = board_full ∨ inside (food s) Config0 = true).
Proof.
  apply (reachable_food_off_snake Config0).
  - simpl. lia.
  - simpl. lia.
  - exists 405%nat, [Tick 0; Press K_UP; Tick 0; Tick 0]. vm_compute. reflexivity.
Defined.

(** A duplicate-free list of grid cells is no longer than the grid is
    large. *)
Lemma chain_ok_length cfg s :
  0 ≤ grid_width cfg → 0 ≤ grid_height cfg → chain_ok cfg s →
  Z.of_nat (length (snake s)) ≤ grid_width cfg * grid_height cfg.
Proof.
  intros Hw Hh [Hnd Hin].
  destruct (grid_cells_spec cfg Hw Hh) as [Hgrid Hsize].
  rewrite <- Hsize, <- (size_list_to_set (C:=gset Vec) (snake s)) by done.
  apply inj_le, subseteq_size. intros c Hc%elem_of_list_to_set.
  by apply Hgrid, (proj1 (Forall_forall _ _) Hin).
Qed.

(** The score of a reachable state, between 0 and the room on the board. *)
Lemma reachable_score_range cfg s :
  4 ≤ grid_width cfg → 1 ≤ grid_height cfg → reachable cfg s →
  Z.of_nat (length (snake s)) ≤ grid_width cfg * grid_height cfg ∧
  score s = Z.of_nat (length (snake s)) - 3 ∧ (3 ≤ length (snake s))%nat.
Proof.
  intros Hw Hh Hr.
  pose proof (chain_ok_length cfg s ltac:(lia) ltac:(lia)
                (reachable_chain cfg s Hw Hh Hr)) as Hlen.
  destruct (reachable_game_inv cfg s Hr) as (H3 & Hsc & _). done.
Qed.

(** X9: on a grid at least 4 wide and 1 high, in every reachable state the
    snake has at most width * height cells and the score is at most
    width * height - 3. *)
Theorem reachable_length_bound cfg s :
  4 ≤ grid_width cfg → 1 ≤ grid_height cfg → reachable cfg s →
  Z.of_nat (length (snake s)) ≤ grid_width cfg * grid_height cfg ∧
  0 ≤ score s ≤ grid_width cfg * grid_height cfg - 3.
Proof.
  intros Hw Hh Hr.
  destruct (reachable_score_range cfg s Hw Hh Hr) as (Hlen & Hsc & H3). lia.
Qed.

Lemma reachable_length_bound_witness :
  let s := mkState [(16,8); (16,9); (16,10)] (0,-1) (0,-1) true 0 (18,13) in
  Z.of_nat (length (snake s)) ≤ 30 * 20 ∧ 0 ≤ score s ≤ 30 * 20 - 3.
Proof.
  apply (reachable_length_bound Config0).
  - simpl. lia.
  - simpl. lia.
  - exists 405%nat, [Tick 0; Press K_UP; Tick 0; Tick 0]. vm_compute. reflexivity.
Defined.

(** X10: once the game is over, no sequence of movement steps and key
    presses changes the state, and nothing more is consumed. *)
Theorem game_over_absorbing cfg s inputs :
  alive s = false →
  run_inputs cfg s inputs = Some s ∧ eaten cfg s inputs = 0%nat.
Proof.
  intros Ha. induction inputs as [|i inputs [IH1 IH2]]; [done|]. simpl.
  assert (step cfg s i = Some s) as ->.
  { destruct i as [r|key]; simpl; [by apply tick_dead|].
    by rewrite direction_input_dead. }
  split; [done|]. rewrite IH2. destruct i; [|done].
  unfold eats. by rewrite Ha.
Qed.

Lemma game_over_absorbing_witness :
  let s := mkState [(0,2); (1,2); (2,2)] (-1,0) (-1,0) false 0 (3,2) in
  run_inputs Config0 s [Tick 1; Press K_UP; Tick 2; Press K_a; Tick 3] = Some s ∧
  eaten Config0 s [Tick 1; Press K_UP; Tick 2; Press K_a; Tick 3] = 0%nat.
Proof. apply game_over_absorbing. reflexivity. Defined.

(** X11: in a reachable state with the game on and the board-full value as
    item, the snake covers the board and the next movement step ends the
    game: a full board is followed by game over. *)
Theorem reachable_full_board_ends cfg r s :
  reachable cfg s → alive s = true → food s = board_full →
  (∀ c, inside c cfg = true → c ∈ snake s) ∧
  ∃ s', tick cfg r s = Some s' ∧ alive s' = false ∧
        snake s' = snake s ∧ score s' = score s ∧ food s' = board_full.
Proof.
  intros Hr Ha Hf.
  pose proof (reachable_win_ok cfg s Hr Hf) as Hall. split; [done|].
  destruct (reachable_game_inv cfg s Hr) as (H3 & _).
  destruct (snake s) as [|head rest] eqn:Hs; [simpl in H3; lia|].
  assert (collides cfg s (add head (pending_dir s)) = true) as Hc.
  { apply collides_true.
    destruct (inside (add head (pending_dir s)) cfg) eqn:Hi; [right|by left].
    rewrite Hs. by apply Hall. }
  rewrite (tick_crash cfg r s head rest) by done. eexists. split; [done|].
  simpl. by rewrite Hs.
Qed.

(** The 4 x 1 board: the first step takes the last free cell. *)
Lemma reachable_full_board_ends_witness :
  let s := mkState [(3,0); (2,0); (1,0); (0,0)] (1,0) (1,0) true 1 (-1,-1) in
  (∀ c, inside c cfg_4x1 = true → c ∈ snake s) ∧
  ∃ s', tick cfg_4x1 0 s = Some s' ∧ alive s' = false ∧
        snake s' = snake s ∧ score s' = score s ∧ food s' = board_full.
Proof.
  apply (reachable_full_board_ends cfg_4x1 0).
  - exists 0%nat, [Tick 0]. vm_compute. reflexivity.
  - reflexivity.
  - reflexivity.
Defined.

(** X14: with a positive [speedup_every] and a non-negative
    [speedup_amount], on a grid at least 4 wide and 1 high, the rate of
    every reachable state is defined, at least [base_fps], and at most the
    rate at score width * height - 3. *)
Theorem reachable_fps_bounds cfg s :
  0 < speedup_every cfg → 0 ≤ speedup_amount cfg →
  4 ≤ grid_width cfg → 1 ≤ grid_height cfg → reachable cfg s →
  ∃ fps, current_fps cfg (score s) = Some fps ∧
         base_fps cfg ≤ fps ≤
         base_fps cfg
         + ((grid_width cfg * grid_height cfg - 3) `div` speedup_every cfg)
           * speedup_amount cfg.
Proof.
  intros He Ham Hw Hh Hr.
  destruct (reachable_score_range cfg s Hw Hh Hr) as (Hlen & Hsc & H3).
  unfold current_fps. rewrite decide_False by lia. eexists. split; [done|].
  assert (0 ≤ score s `div` speedup_every cfg) by (apply Z.div_pos; lia).
  assert (score s `div` speedup_every cfg
          ≤ (grid_width cfg * grid_height cfg - 3) `div` speedup_every cfg)
    by (apply Z.div_le_mono; lia).
  nia.
Qed.

(** The program's configuration: between 5 and 243 frames a second. *)
Lemma reachable_fps_bounds_witness :
  ∃ fps, current_fps Config0 0 = Some fps ∧ 5 ≤ fps ≤ 243.
Proof.
  apply (reachable_fps_bounds Config0
           (mkState [(16,8); (16,9); (16,10)] (0,-1) (0,-1) true 0 (18,13))).
  - simpl. lia.
  - simpl. lia.
  - simpl. lia.
  - simpl. lia.
  - exists 405%nat, [Tick 0; Press K_UP; Tick 0; Tick 0]. vm_compute. reflexivity.
Defined.

(** X15: along any run from a state with a non-empty snake, the snake
    never gets shorter, the score never drops, and the score rises by as
    much as the snake grows. *)
Theorem run_inputs_monotone cfg s inputs s' :
  snake s ≠ [] → run_inputs cfg s inputs = Some s' →
  (length (snake s) ≤ length (snake s'))%nat ∧
  score s ≤ score s' ∧
  score s' - score s = Z.of_nat (length (snake s')) - Z.of_nat (length (snake s)).
Proof.
  intros Hne Hrun.
  destruct (run_inputs_score cfg inputs s Hne) as (s1 & Hrun1 & Hlen & Hd & Hsc).
  rewrite Hrun in Hrun1. injection Hrun1 as <-. lia.
Qed.

Lemma run_inputs_monotone_witness :
  let s := mkState [(2,2); (1,2); (0,2)] (1,0) (1,0) true 0 (3,2) in
  let s' := mkState [(4,2); (3,2); (2,2); (1,2)] (1,0) (1,0) true 1 (0,0) in
  (length (snake s) ≤ length (snake s'))%nat ∧
  score s ≤ score s' ∧
  score s' - score s = Z.of_nat (length (snake s')) - Z.of_nat (length (snake s)).
Proof.
  apply (run_inputs_monotone cfg_5x5 _ [Tick 0; Tick 0]).
  - discriminate.
  - vm_compute. reflexivity.
Defined.

(** ** The event loop and the passes *)

(** X12: an event ends the program exactly when it is QUIT or the Escape
    key; the R key restarts the game when it is over and does nothing while
    it is on; any other event that lets the program go on leaves snake,
    committed direction, alive flag, score and item alone, and the whole
    state when the game is over. *)
Theorem handle_event_spec cfg r s event :
  (handle_event cfg r s event = Quit ↔ event = QUIT ∨ event = KEYDOWN K_ESCAPE) ∧
  (alive s = false → handle_event cfg r s (KEYDOWN K_r) = Continue (reset_game cfg r)) ∧
  (alive s = true → handle_event cfg r s (KEYDOWN K_r) = Continue s) ∧
  (∀ s', handle_event cfg r s event = Continue s' →
         (alive s = false ∧ event = KEYDOWN K_r ∧ s' = reset_game cfg r) ∨
         (snake s' = snake s ∧ direction s' = direction s ∧
          alive s' = alive s ∧ score s' = score s ∧ food s' = food s ∧
          (alive s = false → s' = s))).
Proof.
  split_and!.
  - unfold handle_event. destruct event as [|key|].
    + split; auto.
    + destruct key; simpl; destruct (alive s); simpl;
        (split; [intros H; try discriminate H; auto
                |intros [H|H]; try discriminate H; auto]).
    + split; [intros H|intros [H|H]]; discriminate H.
  - intros Ha. unfold handle_event. by rewrite Ha.
  - intros Ha. unfold handle_event, direction_input. by rewrite Ha.
  - intros s' He. unfold handle_event in He. destruct event as [|key|]; [done| |].
    + destruct (bool_decide (key = K_ESCAPE)); [done|].
      destruct (negb (alive s) && bool_decide (key = K_r)) eqn:Hr.
      * left. apply andb_true_iff in Hr as [Ha%negb_true_iff ->%bool_decide_eq_true].
        by injection He as <-.
      * right. injection He as <-.
        destruct (direction_input_frame s key) as (-> & -> & -> & -> & ->).
        split_and!; try done. apply direction_input_dead.
    + right. by injection He as <-.
Qed.

Lemma handle_event_spec_witness :
  handle_event Config0 7 (mkState [(0,2); (1,2); (2,2)] (-1,0) (-1,0) false 0 (3,2))
               (KEYDOWN K_r)
  = Continue (reset_game Config0 7).
Proof.
  destruct (handle_event_spec Config0 7
              (mkState [(0,2); (1,2); (2,2)] (-1,0) (-1,0) false 0 (3,2))
              (KEYDOWN K_r)) as (_ & H & _).
  apply H. reflexivity.
Defined.

(** X17: a QUIT event or an Escape key press anywhere in the queue of a
    pass ends the program: the events after it, the movement step and the
    drawing do not happen, whatever the state. *)
Theorem frame_quit cfg s r events1 event r1 events2 :
  event = QUIT ∨ event = KEYDOWN K_ESCAPE →
  handle_events cfg s (events1 ++ (event, r1) :: events2) = Quit ∧
  frame cfg (events1 ++ (event, r1) :: events2) r s = Some FrameQuit.
Proof.
  intros Hq.
  assert (handle_events cfg s (events1 ++ (event, r1) :: events2) = Quit) as He.
  { revert s. induction events1 as [|[e1 q1] events1 IH]; intros s; simpl.
    - by destruct Hq as [-> | ->].
    - by destruct (handle_event cfg q1 s e1). }
  split; [done|]. unfold frame. by rewrite He.
Qed.

Lemma frame_quit_witness :
  handle_events Config0 (reset_game Config0 0)
    ([(KEYDOWN K_UP, 0%nat)] ++ (QUIT, 0%nat) :: [(KEYDOWN K_LEFT, 0%nat)]) = Quit ∧
  frame Config0 ([(KEYDOWN K_UP, 0%nat)] ++ (QUIT, 0%nat) :: [(KEYDOWN K_LEFT, 0%nat)])
        0 (reset_game Config0 0) = Some FrameQuit.
Proof. apply frame_quit. left. reflexivity. Defined.



(** X16: each line of the game-over overlay is centred horizontally to
    within one pixel (the right margin is the left margin or one pixel
    more), the second line starts 10 pixels below the first one, and the
    first line sits 18 pixels above its vertically centred place. *)
Theorem overlay_centred cfg w1 h1 w2 :
  let '((x1, y1), (x2, y2)) := overlay_pos cfg w1 h1 w2 in
  0 ≤ (width_px cfg - (x1 + w1)) - x1 ≤ 1 ∧
  0 ≤ (width_px cfg - (x2 + w2)) - x2 ≤ 1 ∧
  y2 = y1 + h1 + 10 ∧
  0 ≤ (height_px cfg - (y1 + 18 + h1)) - (y1 + 18) ≤ 1.
Proof.
  unfold overlay_pos. simpl.
  pose proof (Z.div_mod (width_px cfg - w1) 2 ltac:(lia)).
  pose proof (Z.mod_pos_bound (width_px cfg - w1) 2 ltac:(lia)).
  pose proof (Z.div_mod (width_px cfg - w2) 2 ltac:(lia)).
  pose proof (Z.mod_pos_bound (width_px cfg - w2) 2 ltac:(lia)).
  pose proof (Z.div_mod (height_px cfg - h1) 2 ltac:(lia)).
  pose proof (Z.mod_pos_bound (height_px cfg - h1) 2 ltac:(lia)).
  lia.
Qed.



(** X19: a movement step of a live game ends it exactly when the new head
    is outside the grid or on the snake; nothing else ends a game. *)
Theorem tick_game_over_iff cfg r s head rest s' :
  alive s = true → snake s = head :: rest → tick cfg r s = Some s' →
  (alive s' = false ↔
   inside (add head (pending_dir s)) cfg = false
   ∨ add head (pending_dir s) ∈ snake s).
Proof.
  intros Ha Hs Ht. rewrite <- collides_true.
  destruct (collides cfg s (add head (pending_dir s))) eqn:Hc.
  - rewrite (tick_crash cfg r s head rest) in Ht by done. by injection Ht as <-.
  - destruct (decide (add head (pending_dir s) = food s)) as [Hf|Hf].
    + rewrite (tick_eat cfg r s head rest) in Ht by done. by injection Ht as <-.
    + rewrite (tick_move cfg r s head rest) in Ht by done. by injection Ht as <-.
Qed.

(** The curled snake again: the head turns onto its last cell. *)
Lemma tick_game_over_iff_witness :
  false = false ↔
  inside (add (1, 1) (1, 0)) cfg_5x5 = false
  ∨ add (1, 1) (1, 0) ∈ [(1,1); (1,2); (2,2); (2,1)].
Proof.
  apply (tick_game_over_iff cfg_5x5 0
           (mkState [(1,1); (1,2); (2,2); (2,1)] (0,-1) (1,0) true 1 (4,4))
           (1, 1) [(1,2); (2,2); (2,1)]
           (mkState [(1,1); (1,2); (2,2); (2,1)] (1,0) (1,0) false 1 (4,4))).
  - reflexivity.
  - reflexivity.
  - reflexivity.
Defined.
